(** * Task adaptors of boost::threadpool (task_adaptors.hpp)

    A shallow embedding of the three function objects [task_functor],
    [priority_task_functor] and [looped_task_functor], and the properties
    of construction, comparison, conversion and invocation proved of them.

    Conventions of the embedding:
    - [unsigned int] is a 32-bit integer, a [Z] in [0, 2^32) whose
      arithmetic wraps around ([to_uint]);
    - [boost::function<Signature(void)>] is an [option]: [None] is the
      empty function object, [Some f] one that targets the callable [f];
    - a callable acts on a program state [World] that does not contain the
      wrapper object itself, and either returns a value or raises;
    - calls of the wrapped function, [thread::sleep] and [thread::yield]
      are recorded, in order, in a trace of events;
    - the [while] loop of [looped_task_functor::operator()] runs on fuel:
      [None] as completion means that the loop was still running when the
      fuel ran out. *)

From Stdlib Require Import ZArith List Bool Lia.
Import ListNotations.
Open Scope Z_scope.

(** ** Unsigned machine integers *)

Module UInt.

Definition modulus : Z := 2 ^ 32.

Definition to_uint (z : Z) : Z := z mod modulus.

Definition in_range (z : Z) : Prop := 0 <= z < modulus.

Definition sub (a b : Z) : Z := to_uint (a - b).
Definition mul (a b : Z) : Z := to_uint (a * b).
Definition div (a b : Z) : Z := to_uint (a / b).

End UInt.

(** ** Result types

    [Signature()] value-initialises the result type; the looped functor
    also converts the result to [bool] in its loop condition. *)

Class ValueInit (R : Type) : Type := value_init : R.

Class BoolConvertible (R : Type) : Type := truthy : R -> bool.

#[export] Instance void_init : ValueInit unit := tt.
#[export] Instance bool_init : ValueInit bool := false.
#[export] Instance int_init : ValueInit Z := 0.

#[export] Instance bool_truthy : BoolConvertible bool := fun b => b.
#[export] Instance int_truthy : BoolConvertible Z := fun z => negb (z =? 0).

(** ** Observable events of an invocation *)

Inductive event : Type :=
| EvCall                      (* task_function() was called *)
| EvSleep (sec nsec : Z)      (* thread::sleep at current time + (sec, nsec) *)
| EvYield.                    (* thread::yield *)

Definition event_eqb (a b : event) : bool :=
  match a, b with
  | EvCall, EvCall => true
  | EvSleep s1 n1, EvSleep s2 n2 => (s1 =? s2) && (n1 =? n2)
  | EvYield, EvYield => true
  | _, _ => false
  end.

Definition is_call (e : event) : bool :=
  match e with EvCall => true | _ => false end.
Definition is_sleep (e : event) : bool :=
  match e with EvSleep _ _ => true | _ => false end.
Definition is_yield (e : event) : bool :=
  match e with EvYield => true | _ => false end.

Definition count (p : event -> bool) (tr : list event) : nat :=
  length (filter p tr).

(** [alternates a b tr]: [tr] is an initial part of [a b a b ...]. *)
Fixpoint alternates (a b : event) (tr : list event) : bool :=
  match tr with
  | [] => true
  | x :: tr' => event_eqb x a && alternates b a tr'
  end.

(** ** Points in time

    [boost::xtime]: seconds and nanoseconds since the epoch, both signed;
    [xtime_ns] is the instant in nanoseconds. *)

Record xtime : Type := mk_xtime
  { sec : Z;
    nsec : Z }.

Definition xtime_ns (xt : xtime) : Z := sec xt * 1000000000 + nsec xt.

Section Adaptors.

Variable World : Type.
Variable Exn : Type.

(** What a call of a wrapped function does. *)
Inductive outcome (A : Type) : Type :=
| Normal (a : A)
| Raise (e : Exn).
Arguments Normal {A} a.
Arguments Raise {A} e.

Definition callable (R : Type) : Type := World -> outcome R * World.

(** boost::function<R(void)>. *)
Definition function (R : Type) : Type := option (callable R).

Definition function_empty {R : Type} (f : function R) : bool :=
  match f with
  | None => true
  | Some _ => false
  end.

(** How a call of operator() ends.  [EndOfBody]: control reached the
    closing brace with no return statement executed; that is a normal
    return of a void function and delivers no value otherwise. *)
Inductive completion (A : Type) : Type :=
| Returned (a : A)
| EndOfBody
| Thrown (e : Exn).
Arguments Returned {A} a.
Arguments EndOfBody {A}.
Arguments Thrown {A} e.

(** The default argument [[]() -> Signature { return Signature(); }]. *)
Definition default_lambda {R : Type} `{ValueInit R} : callable R :=
  fun s => (Normal value_init, s).

Definition default_input_function {R : Type} `{ValueInit R} : function R :=
  Some default_lambda.

(** *** task_functor *)

Record task_functor (R : Type) : Type := mk_task_functor
  { task_function : function R }.
Arguments mk_task_functor {R} _.
Arguments task_function {R} _.

Definition task_functor_new {R : Type} (input_function : function R)
  : task_functor R :=
  mk_task_functor input_function.

Definition task_functor_default {R : Type} `{ValueInit R} : task_functor R :=
  task_functor_new default_input_function.

Definition task_empty {R : Type} (this : task_functor R) : bool :=
  function_empty (task_function this).

Definition task_call {R : Type} (this : task_functor R) (s : World)
  : completion R * World * list event :=
  match task_function this with
  | Some f =>
      match f s with
      | (Normal r, s') => (Returned r, s', [EvCall])
      | (Raise e, s') => (Thrown e, s', [EvCall])
      end
  | None => (EndOfBody, s, [])
  end.

(** *** priority_task_functor *)

Record priority_task_functor (R : Type) : Type := mk_priority_task_functor
  { priority_base : task_functor R;
    m_priority : Z }.
Arguments mk_priority_task_functor {R} _ _.
Arguments priority_base {R} _.
Arguments m_priority {R} _.

Definition priority_task_functor_new {R : Type}
    (priority : Z) (input_function : function R) : priority_task_functor R :=
  mk_priority_task_functor (task_functor_new input_function) priority.

Definition set_m_priority {R : Type}
    (this : priority_task_functor R) (v : Z) : priority_task_functor R :=
  mk_priority_task_functor (priority_base this) v.

(** The converting constructor from [priority_task_functor<U>]. *)
Definition priority_task_functor_convert {U R : Type} `{ValueInit R}
    (input_reference : priority_task_functor U) : priority_task_functor R :=
  mk_priority_task_functor task_functor_default (m_priority input_reference).

(** operator= from [priority_task_functor<U>]. *)
Definition priority_assign {U R : Type}
    (this : priority_task_functor R) (input_reference : priority_task_functor U)
  : priority_task_functor R :=
  set_m_priority this (m_priority input_reference).

Definition priority_empty {R : Type} (this : priority_task_functor R) : bool :=
  task_empty (priority_base this).

Definition priority_call {R : Type} (this : priority_task_functor R) (s : World)
  : completion R * World * list event :=
  match task_function (priority_base this) with
  | Some f =>
      match f s with
      | (Normal r, s') => (Returned r, s', [EvCall])
      | (Raise e, s') => (Thrown e, s', [EvCall])
      end
  | None => (EndOfBody, s, [])
  end.

(** operator< *)
Definition priority_lt {R : Type} (this rhs : priority_task_functor R) : bool :=
  m_priority this <? m_priority rhs.

(** *** looped_task_functor *)

Record looped_task_functor (R : Type) : Type := mk_looped_task_functor
  { looped_base : task_functor R;
    m_break_s : Z;
    m_break_ns : Z }.
Arguments mk_looped_task_functor {R} _ _ _.
Arguments looped_base {R} _.
Arguments m_break_s {R} _.
Arguments m_break_ns {R} _.

Definition looped_task_functor_new {R : Type}
    (input_function : function R) (interval : Z) : looped_task_functor R :=
  let break_s := UInt.div interval 1000 in
  let break_ns :=
    UInt.mul (UInt.mul (UInt.sub interval (UInt.mul break_s 1000)) 1000) 1000 in
  mk_looped_task_functor (task_functor_new input_function) break_s break_ns.

Definition set_m_break_s {R : Type}
    (this : looped_task_functor R) (v : Z) : looped_task_functor R :=
  mk_looped_task_functor (looped_base this) v (m_break_ns this).

Definition set_m_break_ns {R : Type}
    (this : looped_task_functor R) (v : Z) : looped_task_functor R :=
  mk_looped_task_functor (looped_base this) (m_break_s this) v.

(** The converting constructor from [looped_task_functor<U>]. *)
Definition looped_task_functor_convert {U R : Type} `{ValueInit R}
    (input_reference : looped_task_functor U) : looped_task_functor R :=
  mk_looped_task_functor task_functor_default
    (m_break_s input_reference) (m_break_ns input_reference).

(** operator= from [looped_task_functor<U>]. *)
Definition looped_assign {U R : Type}
    (this : looped_task_functor R) (input_reference : looped_task_functor U)
  : looped_task_functor R :=
  let this1 := set_m_break_ns this (m_break_ns input_reference) in
  set_m_break_s this1 (m_break_s input_reference).

Definition looped_empty {R : Type} (this : looped_task_functor R) : bool :=
  task_empty (looped_base this).

(** The condition [m_break_s > 0 || m_break_ns > 0]. *)
Definition has_break {R : Type} (this : looped_task_functor R) : bool :=
  (m_break_s this >? 0) || (m_break_ns this >? 0).

(** The block [xtime_get; xt.nsec += m_break_ns; xt.sec += m_break_s;
    thread::sleep(xt)]. *)
Definition sleep_break {R : Type} (this : looped_task_functor R) : event :=
  EvSleep (m_break_s this) (m_break_ns this).

(** The body of the [while] loop. *)
Definition loop_body {R : Type} (this : looped_task_functor R) : event :=
  if has_break this then sleep_break this else EvYield.

(** [while (this->task_function()) { ... }] *)
Fixpoint looped_while {R : Type} `{BoolConvertible R}
    (fuel : nat) (this : looped_task_functor R) (f : callable R) (s : World)
  : option (completion unit) * World * list event :=
  match fuel with
  | O => (None, s, [])
  | S fuel' =>
      match f s with
      | (Raise e, s') => (Some (Thrown e), s', [EvCall])
      | (Normal r, s') =>
          if truthy r then
            let '(c, s'', tr) := looped_while fuel' this f s' in
            (c, s'', EvCall :: loop_body this :: tr)
          else (Some EndOfBody, s', [EvCall])
      end
  end.

(** [if (m_break_s > 0 || m_break_ns > 0) { ... sleep ... }] ahead of
    the loop. *)
Definition first_break {R : Type} (this : looped_task_functor R) : list event :=
  if has_break this then [sleep_break this] else [].

Definition looped_call {R : Type} `{BoolConvertible R}
    (fuel : nat) (this : looped_task_functor R) (s : World)
  : option (completion unit) * World * list event :=
  match task_function (looped_base this) with
  | Some f =>
      let '(c, s', tr) := looped_while fuel this f s in
      (c, s', first_break this ++ tr)
  | None => (Some EndOfBody, s, [])
  end.

(** [looped_task_functor()] with both default arguments. *)
Definition looped_task_functor_default {R : Type} `{ValueInit R}
  : looped_task_functor R :=
  looped_task_functor_new default_input_function 0.

(** What is handed to [thread::sleep] when [xtime_get] read [now]:
    [xt.nsec += m_break_ns; xt.sec += m_break_s]. *)
Definition break_target {R : Type}
    (this : looped_task_functor R) (now : xtime) : xtime :=
  let xt := now in
  let xt := mk_xtime (sec xt) (nsec xt + m_break_ns this) in
  let xt := mk_xtime (sec xt + m_break_s this) (nsec xt) in
  xt.

(** *** Objects across a call

    Every operator() above is a const member function and no data
    member is mutable: the object a call was made on is the same object
    afterwards. *)
Definition after_const_call {Obj A : Type}
    (call : Obj -> World -> A) (this : Obj) (s : World) : Obj * A :=
  (this, call this s).

Definition task_invoke {R : Type} :=
  after_const_call (@task_call R).

Definition priority_invoke {R : Type} :=
  after_const_call (@priority_call R).

Definition looped_invoke {R : Type} `{BoolConvertible R} (fuel : nat) :=
  after_const_call (@looped_call R _ fuel).

(** *** Histories of a callable

    [world_after f n s] is the state after [n] successive calls of [f]
    from [s]; [truthy_for f n s] says that the first [n] of them return
    normally with a value that converts to true; [stops_at f n s] that
    the next one then returns a value that converts to false. *)
Fixpoint world_after {R : Type} (f : callable R) (n : nat) (s : World) : World :=
  match n with
  | O => s
  | S n' => world_after f n' (snd (f s))
  end.

Fixpoint truthy_for {R : Type} `{BoolConvertible R}
    (f : callable R) (n : nat) (s : World) : bool :=
  match n with
  | O => true
  | S n' =>
      match f s with
      | (Normal r, s') => truthy r && truthy_for f n' s'
      | (Raise _, _) => false
      end
  end.

Definition stops_at {R : Type} `{BoolConvertible R}
    (f : callable R) (n : nat) (s : World) : bool :=
  truthy_for f n s &&
  match f (world_after f n s) with
  | (Normal r, _) => negb (truthy r)
  | (Raise _, _) => false
  end.

End Adaptors.

Arguments Normal {Exn A} a.
Arguments Raise {Exn A} e.
Arguments Returned {Exn A} a.
Arguments EndOfBody {Exn A}.
Arguments Thrown {Exn A} e.
Arguments function_empty {World Exn R} f.
Arguments default_lambda {World Exn R _} s.
Arguments default_input_function {World Exn R _}.
Arguments mk_task_functor {World Exn R} _.
Arguments task_function {World Exn R} _.
Arguments task_functor_new {World Exn R} input_function.
Arguments task_functor_default {World Exn R _}.
Arguments task_empty {World Exn R} this.
Arguments task_call {World Exn R} this s.
Arguments mk_priority_task_functor {World Exn R} _ _.
Arguments priority_base {World Exn R} _.
Arguments m_priority {World Exn R} _.
Arguments priority_task_functor_new {World Exn R} priority input_function.
Arguments set_m_priority {World Exn R} this v.
Arguments priority_task_functor_convert {World Exn U R _} input_reference.
Arguments priority_assign {World Exn U R} this input_reference.
Arguments priority_empty {World Exn R} this.
Arguments priority_call {World Exn R} this s.
Arguments priority_lt {World Exn R} this rhs.
Arguments mk_looped_task_functor {World Exn R} _ _ _.
Arguments looped_base {World Exn R} _.
Arguments m_break_s {World Exn R} _.
Arguments m_break_ns {World Exn R} _.
Arguments looped_task_functor_new {World Exn R} input_function interval.
Arguments set_m_break_s {World Exn R} this v.
Arguments set_m_break_ns {World Exn R} this v.
Arguments looped_task_functor_convert {World Exn U R _} input_reference.
Arguments looped_assign {World Exn U R} this input_reference.
Arguments looped_empty {World Exn R} this.
Arguments has_break {World Exn R} this.
Arguments sleep_break {World Exn R} this.
Arguments loop_body {World Exn R} this.
Arguments first_break {World Exn R} this.
Arguments looped_while {World Exn R _} fuel this f s.
Arguments looped_call {World Exn R _} fuel this s.
Arguments after_const_call {World Obj A} call this s.
Arguments task_invoke {World Exn R} this s.
Arguments priority_invoke {World Exn R} this s.
Arguments looped_invoke {World Exn R _} fuel this s.
Arguments world_after {World Exn R} f n s.
Arguments truthy_for {World Exn R _} f n s.
Arguments stops_at {World Exn R _} f n s.

Arguments looped_task_functor_default {World Exn R _}.
Arguments break_target {World Exn R} this now.

(** [rounds b k]: [k] turns of the loop, each a call followed by [b]. *)
Fixpoint rounds (b : event) (k : nat) : list event :=
  match k with
  | O => []
  | S k' => EvCall :: b :: rounds b k'
  end.

(** ** Sample callables

    A counter that asks to go on while it is below [limit], one that
    always asks to go on, one that raises once the counter is at [limit],
    and one that returns a number. *)

Definition count_to (limit : nat) : callable nat nat bool :=
  fun n => (Normal (Nat.ltb n limit), S n).

Definition forever : callable nat nat bool :=
  fun n => (Normal true, S n).

Definition fail_at (limit : nat) (code : nat) : callable nat nat bool :=
  fun n => if Nat.ltb n limit then (Normal true, S n) else (Raise code, n).

Definition answer : callable nat nat Z :=
  fun n => (Normal 42, S n).

(** ** Arithmetic of the interval *)

Lemma to_uint_small (z : Z) : UInt.in_range z -> UInt.to_uint z = z.
Proof.
  unfold UInt.in_range, UInt.to_uint; intros Hz.
  now apply Z.mod_small.
Qed.

Lemma in_range_bounds (z : Z) : UInt.in_range z <-> 0 <= z < 4294967296.
Proof. unfold UInt.in_range; now change UInt.modulus with 4294967296. Qed.

Lemma break_s_exact (interval : Z) :
  UInt.in_range interval -> UInt.div interval 1000 = interval / 1000.
Proof.
  intros Hi; apply (proj1 (in_range_bounds _)) in Hi.
  apply to_uint_small, (proj2 (in_range_bounds _)).
  split.
  - apply Z.div_pos; lia.
  - apply Z.div_lt_upper_bound; lia.
Qed.

Lemma break_ns_exact (interval : Z) :
  UInt.in_range interval ->
  UInt.mul
    (UInt.mul (UInt.sub interval (UInt.mul (UInt.div interval 1000) 1000)) 1000)
    1000
  = (interval mod 1000) * 1000000.
Proof.
  intros Hi; rewrite (break_s_exact _ Hi).
  apply (proj1 (in_range_bounds _)) in Hi.
  pose proof (Z.div_mod interval 1000 ltac:(lia)) as Hdm.
  pose proof (Z.mod_pos_bound interval 1000 ltac:(lia)) as Hm.
  assert (Hq : 0 <= interval / 1000) by (apply Z.div_pos; lia).
  unfold UInt.mul at 3.
  rewrite to_uint_small by (apply (proj2 (in_range_bounds _)); lia).
  unfold UInt.sub.
  replace (interval - interval / 1000 * 1000) with (interval mod 1000) by lia.
  rewrite to_uint_small by (apply (proj2 (in_range_bounds _)); lia).
  unfold UInt.mul.
  rewrite (to_uint_small (interval mod 1000 * 1000))
    by (apply (proj2 (in_range_bounds _)); lia).
  rewrite to_uint_small by (apply (proj2 (in_range_bounds _)); lia).
  lia.
Qed.

Section Properties.

Context {World Exn : Type}.

Local Abbreviation callable := (callable World Exn).
Local Abbreviation function := (function World Exn).
Local Abbreviation task_functor := (task_functor World Exn).
Local Abbreviation priority_task_functor := (priority_task_functor World Exn).
Local Abbreviation looped_task_functor := (looped_task_functor World Exn).

(** *** Construction *)

Lemma looped_new_fields {R : Type} (g : function R) (interval : Z) :
  UInt.in_range interval ->
  m_break_s (looped_task_functor_new g interval) = interval / 1000 /\
  m_break_ns (looped_task_functor_new g interval)
    = (interval mod 1000) * 1000000.
Proof.
  intros Hi; unfold looped_task_functor_new; cbn [m_break_s m_break_ns].
  split; [now apply break_s_exact | now apply break_ns_exact].
Qed.

Lemma has_break_new {R : Type} (g : function R) (interval : Z) :
  UInt.in_range interval ->
  has_break (looped_task_functor_new g interval) = negb (interval =? 0).
Proof.
  intros Hi; unfold has_break.
  destruct (looped_new_fields g interval Hi) as [-> ->].
  apply (proj1 (in_range_bounds _)) in Hi.
  pose proof (Z.div_mod interval 1000 ltac:(lia)) as Hdm.
  pose proof (Z.mod_pos_bound interval 1000 ltac:(lia)) as Hm.
  assert (Hq : 0 <= interval / 1000) by (apply Z.div_pos; lia).
  destruct (Z.eqb_spec interval 0) as [-> | Hne]; [reflexivity |].
  cbn [negb]; apply orb_true_iff.
  destruct (Z.eq_dec (interval / 1000) 0) as [Hz | Hz].
  - right; apply Z.gtb_lt; lia.
  - left; apply Z.gtb_lt; lia.
Qed.

(** C5: for every unsigned interval in milliseconds, the constructor of
    the looped functor stores [interval / 1000] seconds and
    [(interval mod 1000) * 1_000_000] nanoseconds, the latter below
    1_000_000_000. *)
Theorem C5_interval_decomposition
    {R : Type} (g : function R) (interval : Z) :
  UInt.in_range interval ->
  let this := looped_task_functor_new g interval in
  m_break_s this = interval / 1000 /\
  m_break_ns this = (interval mod 1000) * 1000000 /\
  0 <= m_break_ns this < 1000000000.
Proof.
  intros Hi this; subst this.
  destruct (looped_new_fields g interval Hi) as [Hs Hns].
  rewrite Hs, Hns.
  pose proof (Z.mod_pos_bound interval 1000 ltac:(lia)).
  repeat split; lia.
Qed.

(** *** Ordering *)

(** C4: operator< of the priority functor answers true exactly when the
    priority of the left operand is numerically below that of the right
    one, whatever functions the two hold; so a functor built with [p1]
    is less than one built with [p2] whenever [p1 < p2]. *)
Theorem C4_priority_order
    {R : Type} (p1 p2 : Z) (g1 g2 : function R) :
  p1 < p2 ->
  priority_lt (priority_task_functor_new p1 g1)
              (priority_task_functor_new p2 g2) = true /\
  (forall a b : priority_task_functor R,
      priority_lt a b = true <-> m_priority a < m_priority b).
Proof.
  intros Hlt; split.
  - unfold priority_lt; cbn [priority_task_functor_new m_priority].
    now apply Z.ltb_lt.
  - intros a b; unfold priority_lt; apply Z.ltb_lt.
Qed.

(** *** Conversion and assignment between result types

    The member templates are disabled for [U = Signature], where the
    implicit copy operations are used; the definitions describe the
    templates. *)

Lemma default_is_not_empty {R : Type} `{ValueInit R} :
  task_empty (task_functor_default : task_functor R) = false.
Proof. reflexivity. Qed.

Lemma default_call {R : Type} `{ValueInit R} (s : World) :
  task_call (task_functor_default : task_functor R) s
  = (Returned value_init, s, [EvCall]).
Proof. reflexivity. Qed.

(** C2, as the code has it: conversion from another result type copies
    the priority, or the two break fields, exactly; the new functor does
    not hold the function of the source but the default function of its
    own base, which returns a value-initialised result, so that empty()
    answers false on it, whether the source was empty or not. *)
Theorem C2_conversion_keeps_metadata_and_default_function
    {U R : Type} `{ValueInit R}
    (p : priority_task_functor U) (l : looped_task_functor U) :
  let p' : priority_task_functor R := priority_task_functor_convert p in
  let l' : looped_task_functor R := looped_task_functor_convert l in
  (m_priority p' = m_priority p /\
   task_function (priority_base p') = Some default_lambda /\
   priority_empty p' = false /\
   (forall s : World, priority_call p' s = (Returned value_init, s, [EvCall])))
  /\
  (m_break_s l' = m_break_s l /\
   m_break_ns l' = m_break_ns l /\
   task_function (looped_base l') = Some default_lambda /\
   looped_empty l' = false).
Proof. repeat split. Qed.

(** C10: assignment from another result type writes the priority, or the
    two break fields, of the target from the source and leaves the
    function held by the target, hence the answer of empty(), as it
    was. *)
Theorem C10_assignment_changes_metadata_only
    {U R : Type}
    (this_p : priority_task_functor R) (from_p : priority_task_functor U)
    (this_l : looped_task_functor R) (from_l : looped_task_functor U) :
  (m_priority (priority_assign this_p from_p) = m_priority from_p /\
   priority_base (priority_assign this_p from_p) = priority_base this_p /\
   priority_empty (priority_assign this_p from_p) = priority_empty this_p)
  /\
  (m_break_s (looped_assign this_l from_l) = m_break_s from_l /\
   m_break_ns (looped_assign this_l from_l) = m_break_ns from_l /\
   looped_base (looped_assign this_l from_l) = looped_base this_l /\
   looped_empty (looped_assign this_l from_l) = looped_empty this_l).
Proof. repeat split. Qed.

(** *** Emptiness *)

(** C3, as the code has it: empty() answers whether the function given
    to the constructor was empty.  It is false for a default-constructed
    functor, which holds the default function, and false after
    construction from any non-empty function; it is true only after
    construction from an empty function object.  No invocation, of any
    of the three functors, changes it. *)
Theorem C3_empty_reports_the_held_function
    {R : Type} `{ValueInit R} `{BoolConvertible R} :
  task_empty (task_functor_default : task_functor R) = false /\
  (forall f : callable R, task_empty (task_functor_new (Some f)) = false) /\
  (forall g : function R, task_empty (task_functor_new g) = function_empty g) /\
  task_empty (task_functor_new (None : function R)) = true /\
  (forall (this : task_functor R) (s : World),
      task_empty (fst (task_invoke this s)) = task_empty this) /\
  (forall (this : priority_task_functor R) (s : World),
      priority_empty (fst (priority_invoke this s)) = priority_empty this) /\
  (forall (fuel : nat) (this : looped_task_functor R) (s : World),
      looped_empty (fst (looped_invoke fuel this s)) = looped_empty this).
Proof. repeat split. Qed.

(** *** Invocation of an empty functor *)

Lemma task_call_empty {R : Type} (this : task_functor R) (s : World) :
  task_empty this = true -> task_call this s = (EndOfBody, s, []).
Proof.
  unfold task_empty, task_call.
  destruct (task_function this); [discriminate | reflexivity].
Qed.

Lemma priority_call_empty {R : Type} (this : priority_task_functor R) (s : World) :
  priority_empty this = true -> priority_call this s = (EndOfBody, s, []).
Proof.
  unfold priority_empty, task_empty, priority_call.
  destruct (task_function (priority_base this)); [discriminate | reflexivity].
Qed.

Lemma looped_call_empty {R : Type} `{BoolConvertible R}
    (fuel : nat) (this : looped_task_functor R) (s : World) :
  looped_empty this = true -> looped_call fuel this s = (Some EndOfBody, s, []).
Proof.
  unfold looped_empty, task_empty, looped_call.
  destruct (task_function (looped_base this)); [discriminate | reflexivity].
Qed.

(** C6, what the code does: an empty functor calls no function, sleeps
    and yields not at all and leaves the state alone, also when looped
    with a break.  The looped operator(), of result type void, returns.
    The operator() of the basic and of the priority functor reaches the
    end of its body without a return statement: no value-initialised
    result is delivered for a result type other than void. *)
Theorem C6_empty_call_reaches_end_of_body
    {R : Type} `{ValueInit R} `{BoolConvertible R}
    (s : World) (priority interval : Z) (fuel : nat) :
  task_call (task_functor_new (None : function R)) s = (EndOfBody, s, []) /\
  priority_call (priority_task_functor_new priority (None : function R)) s
    = (EndOfBody, s, []) /\
  looped_call fuel (looped_task_functor_new (None : function R) interval) s
    = (Some EndOfBody, s, []) /\
  fst (fst (task_call (task_functor_new (None : function R)) s))
    <> Returned value_init.
Proof. repeat split; discriminate. Qed.


(** *** The loop *)

Lemma world_after_succ {R : Type} (f : callable R) (n : nat) (s : World) :
  world_after f (S n) s = snd (f (world_after f n s)).
Proof.
  revert s; induction n as [| n IH]; intros s; [reflexivity |].
  change (world_after f (S (S n)) s) with (world_after f (S n) (snd (f s))).
  now rewrite IH.
Qed.

Lemma truthy_for_step {R : Type} `{BoolConvertible R}
    (f : callable R) (n : nat) (s : World) :
  truthy_for f (S n) s = true ->
  exists r, f s = (Normal r, snd (f s)) /\ truthy r = true /\
            truthy_for f n (snd (f s)) = true.
Proof.
  cbn [truthy_for]; destruct (f s) as [[r | e] s'] eqn:Hf; [| discriminate].
  intros Hr; apply andb_true_iff in Hr as [Hr Hn].
  exists r; cbn [snd]; auto.
Qed.

(** [k] truthy calls make [k] turns of the loop. *)
Lemma looped_while_rounds {R : Type} `{BoolConvertible R}
    (this : looped_task_functor R) (f : callable R) (k m : nat) :
  forall s : World,
    truthy_for f k s = true ->
    looped_while (k + m) this f s
    = (fst (fst (looped_while m this f (world_after f k s))),
       snd (fst (looped_while m this f (world_after f k s))),
       rounds (loop_body this) k
         ++ snd (looped_while m this f (world_after f k s))).
Proof.
  induction k as [| k IH]; intros s Hk.
  - cbn [Nat.add world_after rounds app].
    now destruct (looped_while m this f s) as [[c s'] tr].
  - destruct (truthy_for_step f k s Hk) as (r & Hf & Hr & Hrest).
    cbn [Nat.add looped_while world_after rounds].
    rewrite Hf, Hr, (IH _ Hrest).
    reflexivity.
Qed.

Lemma looped_while_stops {R : Type} `{BoolConvertible R}
    (this : looped_task_functor R) (f : callable R) (n fuel : nat) (s : World) :
  stops_at f n s = true ->
  (n < fuel)%nat ->
  looped_while fuel this f s
  = (Some EndOfBody, world_after f (S n) s,
     rounds (loop_body this) n ++ [EvCall]).
Proof.
  unfold stops_at; intros Hstop Hlt.
  apply andb_true_iff in Hstop as [Hn Hlast].
  replace fuel with (n + S (fuel - S n))%nat by lia.
  rewrite (looped_while_rounds this f n _ s Hn), world_after_succ.
  cbn [looped_while].
  destruct (f (world_after f n s)) as [[r | e] s'] eqn:Hf; [| discriminate].
  apply negb_true_iff in Hlast; rewrite Hlast.
  reflexivity.
Qed.

Lemma looped_while_raises {R : Type} `{BoolConvertible R}
    (this : looped_task_functor R) (f : callable R) (k fuel : nat)
    (s s' : World) (e : Exn) :
  truthy_for f k s = true ->
  f (world_after f k s) = (Raise e, s') ->
  (k < fuel)%nat ->
  looped_while fuel this f s
  = (Some (Thrown e), s', rounds (loop_body this) k ++ [EvCall]).
Proof.
  intros Hk Hf Hlt.
  replace fuel with (k + S (fuel - S k))%nat by lia.
  rewrite (looped_while_rounds this f k _ s Hk).
  cbn [looped_while]; rewrite Hf.
  reflexivity.
Qed.

Lemma looped_while_goes_on {R : Type} `{BoolConvertible R}
    (this : looped_task_functor R) (f : callable R) (fuel : nat) (s : World) :
  truthy_for f fuel s = true ->
  looped_while fuel this f s
  = (None, world_after f fuel s, rounds (loop_body this) fuel).
Proof.
  intros Hk.
  replace fuel with (fuel + 0)%nat at 1 by lia.
  rewrite (looped_while_rounds this f fuel 0 s Hk).
  cbn [looped_while fst snd]; now rewrite app_nil_r.
Qed.

(** Once the loop has been left, more fuel changes nothing. *)
Lemma looped_while_more_fuel {R : Type} `{BoolConvertible R}
    (this : looped_task_functor R) (f : callable R) (fuel extra : nat) :
  forall (s s' : World) (c : completion Exn unit) (tr : list event),
    looped_while fuel this f s = (Some c, s', tr) ->
    looped_while (fuel + extra) this f s = (Some c, s', tr).
Proof.
  induction fuel as [| fuel IH]; intros s s' c tr Hrun; [discriminate |].
  cbn [Nat.add looped_while] in *.
  destruct (f s) as [[r | e] s1]; [| exact Hrun].
  destruct (truthy r); [| exact Hrun].
  destruct (looped_while fuel this f s1) as [[c1 s2] tr1] eqn:Hrest.
  injection Hrun as -> -> <-.
  now rewrite (IH _ _ _ _ Hrest).
Qed.


(** The trace of the loop is whole turns, and one more call when the
    loop was left. *)
Lemma looped_while_shape {R : Type} `{BoolConvertible R}
    (this : looped_task_functor R) (f : callable R) (fuel : nat) :
  forall s : World,
  exists k : nat,
    (k <= fuel)%nat /\
    snd (looped_while fuel this f s)
    = rounds (loop_body this) k
        ++ match fst (fst (looped_while fuel this f s)) with
           | Some _ => [EvCall]
           | None => []
           end.
Proof.
  induction fuel as [| fuel IH]; intros s.
  - exists 0%nat; split; [lia | reflexivity].
  - cbn [looped_while].
    destruct (f s) as [[r | e] s'].
    + destruct (truthy r).
      * destruct (IH s') as (k & Hk & Htr).
        destruct (looped_while fuel this f s') as [[c s''] tr].
        cbn [fst snd] in *.
        exists (S k); split; [lia |].
        now rewrite Htr.
      * exists 0%nat; split; [lia | reflexivity].
    + exists 0%nat; split; [lia | reflexivity].
Qed.

(** *** Counting events *)

Lemma count_app (p : event -> bool) (a b : list event) :
  count p (a ++ b) = (count p a + count p b)%nat.
Proof. unfold count; now rewrite filter_app, length_app. Qed.

Lemma count_rounds (p : event -> bool) (b : event) (k : nat) :
  count p (rounds b k) = (k * (Nat.b2n (p EvCall) + Nat.b2n (p b)))%nat.
Proof.
  induction k as [| k IH]; [reflexivity |].
  change (rounds b (S k)) with ([EvCall; b] ++ rounds b k).
  rewrite count_app, IH; unfold count; cbn [filter].
  destruct (p EvCall), (p b); cbn [length Nat.b2n]; lia.
Qed.

Lemma event_eqb_refl (a : event) : event_eqb a a = true.
Proof. destruct a; cbn; [reflexivity | now rewrite !Z.eqb_refl | reflexivity]. Qed.

Lemma alternates_rounds (b : event) (k : nat) (tl : list event) :
  alternates EvCall b tl = true ->
  alternates EvCall b (rounds b k ++ tl) = true.
Proof.
  intros Htl; induction k as [| k IH]; [exact Htl |].
  cbn [rounds app alternates event_eqb andb].
  now rewrite event_eqb_refl, IH.
Qed.


(** *** Invocation of the looped functor *)

Lemma looped_call_some {R : Type} `{BoolConvertible R}
    (fuel : nat) (this : looped_task_functor R) (f : callable R) (s : World) :
  task_function (looped_base this) = Some f ->
  looped_call fuel this s
  = (fst (fst (looped_while fuel this f s)),
     snd (fst (looped_while fuel this f s)),
     first_break this ++ snd (looped_while fuel this f s)).
Proof.
  intros Hf; unfold looped_call; rewrite Hf.
  now destruct (looped_while fuel this f s) as [[c s'] tr].
Qed.

Lemma zero_interval_no_break {R : Type} (g : function R) :
  has_break (looped_task_functor_new g 0) = false.
Proof. reflexivity. Qed.

(** C1: a looped functor built with interval 0 around a function that
    answers true exactly [N] times and then false calls it [N + 1]
    times, yields after each of the first [N] calls, never sleeps, and
    returns after the call that answered false. *)
Theorem C1_zero_interval_loop
    {R : Type} `{BoolConvertible R}
    (f : callable R) (N : nat) (s : World) (fuel : nat) :
  stops_at f N s = true ->
  (N < fuel)%nat ->
  looped_call fuel (looped_task_functor_new (Some f) 0) s
    = (Some EndOfBody, world_after f (S N) s, rounds EvYield N ++ [EvCall]) /\
  count is_call (rounds EvYield N ++ [EvCall]) = S N /\
  count is_yield (rounds EvYield N ++ [EvCall]) = N /\
  count is_sleep (rounds EvYield N ++ [EvCall]) = 0%nat.
Proof.
  intros Hstop Hlt; split.
  - rewrite (looped_call_some fuel (looped_task_functor_new (Some f) 0) f s eq_refl).
    rewrite (looped_while_stops _ f N fuel s Hstop Hlt).
    reflexivity.
  - rewrite !count_app, !count_rounds; cbn; lia.
Qed.

(** C7: a non-empty looped functor built with a nonzero interval sleeps
    for (break_seconds, break_nanoseconds) before the first call and
    again between any two consecutive calls, and never yields; built
    with interval zero it never sleeps and yields between consecutive
    calls.  This holds of every initial part of the invocation, and a
    finished invocation has as many sleeps as calls in the first case
    and one yield less than calls in the second. *)
Theorem C7_breaks_between_calls
    {R : Type} `{BoolConvertible R}
    (f : callable R) (interval : Z) (fuel : nat) (s : World) :
  UInt.in_range interval ->
  let this := looped_task_functor_new (Some f) interval in
  let c := fst (fst (looped_call fuel this s)) in
  let tr := snd (looped_call fuel this s) in
  if interval =? 0 then
    alternates EvCall EvYield tr = true /\
    count is_sleep tr = 0%nat /\
    (c <> None -> count is_call tr = S (count is_yield tr))
  else
    alternates (EvSleep (interval / 1000) ((interval mod 1000) * 1000000))
               EvCall tr = true /\
    count is_yield tr = 0%nat /\
    (c <> None -> count is_sleep tr = count is_call tr).
Proof.
  intros Hi this c tr; subst c tr.
  rewrite (looped_call_some fuel this f s eq_refl); cbn [fst snd].
  destruct (looped_while_shape this f fuel s) as (k & _ & ->).
  assert (Hsleep : sleep_break this
                   = EvSleep (interval / 1000) ((interval mod 1000) * 1000000)).
  { unfold sleep_break, this.
    now destruct (looped_new_fields (Some f) interval Hi) as [-> ->]. }
  assert (Hbreak : has_break this = negb (interval =? 0))
    by exact (has_break_new (Some f) interval Hi).
  unfold first_break, loop_body; rewrite Hbreak, Hsleep.
  destruct (interval =? 0); cbn [negb app].
  - repeat split.
    + apply alternates_rounds.
      now destruct (fst (fst (looped_while fuel this f s))).
    + rewrite count_app, count_rounds.
      destruct (fst (fst (looped_while fuel this f s))); cbn; lia.
    + intros Hc; rewrite !count_app, !count_rounds.
      destruct (fst (fst (looped_while fuel this f s))); [| contradiction].
      cbn; lia.
  - repeat split.
    + cbn [alternates]; rewrite event_eqb_refl; cbn [andb].
      set (b := EvSleep _ _); clear.
      induction k as [| k IH].
      * now destruct (fst (fst (looped_while fuel this f s))).
      * cbn [rounds app alternates event_eqb andb].
        now rewrite event_eqb_refl.
    + change (count is_yield (?x :: ?l)) with (count is_yield l).
      rewrite count_app, count_rounds.
      destruct (fst (fst (looped_while fuel this f s))); cbn; lia.
    + intros Hc.
      change (count is_sleep (EvSleep ?a ?b :: ?l)) with (S (count is_sleep l)).
      change (count is_call (EvSleep ?a ?b :: ?l)) with (count is_call l).
      rewrite !count_app, !count_rounds.
      destruct (fst (fst (looped_while fuel this f s))); [| contradiction].
      cbn; lia.
Qed.

(** C8: a non-empty looped functor whose function answers a truthy
    value at every call never returns: whatever the number of turns
    allowed, the loop is still running after them, having made that
    many calls. *)
Theorem C8_truthy_forever_never_returns
    {R : Type} `{BoolConvertible R}
    (this : looped_task_functor R) (f : callable R) (s : World) (fuel : nat) :
  task_function (looped_base this) = Some f ->
  (forall n : nat, truthy_for f n s = true) ->
  looped_call fuel this s
    = (None, world_after f fuel s,
       first_break this ++ rounds (loop_body this) fuel) /\
  count is_call (first_break this ++ rounds (loop_body this) fuel) = fuel.
Proof.
  intros Hf Hall; split.
  - rewrite (looped_call_some fuel this f s Hf).
    now rewrite (looped_while_goes_on this f fuel s (Hall fuel)).
  - rewrite count_app, count_rounds.
    unfold first_break, loop_body, sleep_break.
    destruct (has_break this); cbn; lia.
Qed.

(** *** Failures of the wrapped function *)

(** C9: a failure raised by the held function leaves the basic and the
    priority operator() as that same failure, and leaves the looped
    operator() as that same failure at whichever call of the loop it is
    raised; the state is the one the function left, and the functor is
    what it was. *)
Theorem C9_failure_propagates
    {R : Type} (f : callable R) (s s' : World) (e : Exn) :
  f s = (Raise e, s') ->
  (forall this : task_functor R,
      task_function this = Some f ->
      task_invoke this s = (this, (Thrown e, s', [EvCall]))) /\
  (forall this : priority_task_functor R,
      task_function (priority_base this) = Some f ->
      priority_invoke this s = (this, (Thrown e, s', [EvCall]))) /\
  (forall (B : BoolConvertible R) (this : looped_task_functor R)
          (k fuel : nat) (s0 : World),
      task_function (looped_base this) = Some f ->
      truthy_for f k s0 = true ->
      world_after f k s0 = s ->
      (k < fuel)%nat ->
      looped_invoke fuel this s0
      = (this, (Some (Thrown e), s',
                first_break this ++ rounds (loop_body this) k ++ [EvCall]))).
Proof.
  intros Hraise; repeat split.
  - intros this Hf.
    unfold task_invoke, after_const_call, task_call.
    now rewrite Hf, Hraise.
  - intros this Hf.
    unfold priority_invoke, after_const_call, priority_call.
    now rewrite Hf, Hraise.
  - intros B this k fuel s0 Hf Hk Hs Hlt.
    unfold looped_invoke, after_const_call.
    rewrite (looped_call_some fuel this f s0 Hf).
    rewrite <- Hs in Hraise.
    now rewrite (looped_while_raises this f k fuel s0 s' e Hk Hraise Hlt).
Qed.


End Properties.

(** ** The theorems at the sample callables *)

Lemma forever_truthy (n s : nat) : truthy_for forever n s = true.
Proof.
  revert s; induction n as [| n IH]; intros s; [reflexivity |].
  cbn [truthy_for forever]; exact (IH (S s)).
Qed.

(** C1 at a counter that stops at 3: four calls, three yields. *)
Lemma C1_zero_interval_loop_witness :
  stops_at (count_to 3) 3 0%nat = true /\
  (3 < 10)%nat /\
  looped_call 10 (looped_task_functor_new (Some (count_to 3)) 0) 0%nat
  = (Some EndOfBody, 4%nat,
     [EvCall; EvYield; EvCall; EvYield; EvCall; EvYield; EvCall]).
Proof.
  split; [reflexivity |].
  split; [lia |].
  exact (proj1 (C1_zero_interval_loop (count_to 3) 3 0%nat 10
                  eq_refl ltac:(lia))).
Defined.

(** C2 as claimed fails: the functor converted from a non-empty one is
    not empty. *)
Lemma C2_converted_functor_is_not_empty :
  ~ (let source : priority_task_functor nat nat Z :=
       priority_task_functor_new 7 (Some answer) in
     let target : priority_task_functor nat nat bool :=
       priority_task_functor_convert source in
     m_priority target = m_priority source /\ priority_empty target = true).
Proof. intros [_ Hempty]; discriminate Hempty. Qed.

(** C3 as claimed fails: a default-constructed functor is not empty. *)
Lemma C3_default_functor_is_not_empty :
  ~ (task_empty (task_functor_default : task_functor nat nat Z) = true).
Proof. intros Hempty; discriminate Hempty. Qed.

(** C4 at priorities 1 and 2, the lower one on a functor that holds a
    function, the higher one on an empty functor. *)
Lemma C4_priority_order_witness :
  1 < 2 /\
  priority_lt (priority_task_functor_new 1 (Some answer))
              (priority_task_functor_new 2 None) = true.
Proof.
  split; [lia |].
  exact (proj1 (C4_priority_order 1 2 (Some answer) None ltac:(lia))).
Defined.

(** C5 at 1500 milliseconds: one second and 500_000_000 nanoseconds. *)
Lemma C5_interval_decomposition_witness :
  UInt.in_range 1500 /\
  m_break_s (looped_task_functor_new (Some forever) 1500) = 1 /\
  m_break_ns (looped_task_functor_new (Some forever) 1500) = 500000000.
Proof.
  assert (Hr : UInt.in_range 1500) by (apply (proj2 (in_range_bounds _)); lia).
  split; [exact Hr |].
  destruct (C5_interval_decomposition (Some forever) 1500 Hr) as (Hs & Hns & _).
  split; [exact Hs | exact Hns].
Defined.

(** C7 at 1500 milliseconds and a counter that stops at 2. *)
Lemma C7_breaks_between_calls_witness :
  UInt.in_range 1500 /\
  snd (looped_call 5 (looped_task_functor_new (Some (count_to 2)) 1500) 0%nat)
  = [EvSleep 1 500000000; EvCall; EvSleep 1 500000000; EvCall;
     EvSleep 1 500000000; EvCall] /\
  alternates (EvSleep 1 500000000) EvCall
    (snd (looped_call 5 (looped_task_functor_new (Some (count_to 2)) 1500) 0%nat))
  = true.
Proof.
  assert (Hr : UInt.in_range 1500) by (apply (proj2 (in_range_bounds _)); lia).
  split; [exact Hr |].
  split; [reflexivity |].
  exact (proj1 (C7_breaks_between_calls (count_to 2) 1500 5 0%nat Hr)).
Defined.

(** C8 at the function that always answers true, with a break of 2 ms. *)
Lemma C8_truthy_forever_never_returns_witness :
  (forall n : nat, truthy_for forever n 0%nat = true) /\
  looped_call 3 (looped_task_functor_new (Some forever) 2) 0%nat
  = (None, 3%nat,
     [EvSleep 0 2000000; EvCall; EvSleep 0 2000000; EvCall;
      EvSleep 0 2000000; EvCall; EvSleep 0 2000000]).
Proof.
  split; [exact (fun n => forever_truthy n 0) |].
  exact (proj1 (C8_truthy_forever_never_returns
                  (looped_task_functor_new (Some forever) 2) forever 0%nat 3
                  eq_refl (fun n => forever_truthy n 0))).
Defined.

(** C9 at a function that answers true twice and then raises 7. *)
Lemma C9_failure_propagates_witness :
  fail_at 2 7 2%nat = (Raise 7%nat, 2%nat) /\
  task_invoke (task_functor_new (Some (fail_at 2 7))) 2%nat
  = (task_functor_new (Some (fail_at 2 7)), (Thrown 7%nat, 2%nat, [EvCall])) /\
  looped_invoke 5 (looped_task_functor_new (Some (fail_at 2 7)) 0) 0%nat
  = (looped_task_functor_new (Some (fail_at 2 7)) 0,
     (Some (Thrown 7%nat), 2%nat,
      [EvCall; EvYield; EvCall; EvYield; EvCall])).
Proof.
  split; [reflexivity |].
  destruct (C9_failure_propagates (fail_at 2 7) 2%nat 2%nat 7%nat eq_refl)
    as (Htask & _ & Hloop).
  split.
  - exact (Htask (task_functor_new (Some (fail_at 2 7))) eq_refl).
  - exact (Hloop _ (looped_task_functor_new (Some (fail_at 2 7)) 0)
             2%nat 5%nat 0%nat eq_refl eq_refl eq_refl ltac:(lia)).
Defined.


(** ** Further properties of the adaptors *)

Section MoreProperties.

Context {World Exn : Type}.

Local Abbreviation callable := (callable World Exn).
Local Abbreviation function := (function World Exn).
Local Abbreviation task_functor := (task_functor World Exn).
Local Abbreviation priority_task_functor := (priority_task_functor World Exn).
Local Abbreviation looped_task_functor := (looped_task_functor World Exn).

(** *** The order of priorities *)

(** operator< is a strict weak ordering, as an ordered container of
    tasks needs: no functor is below itself, two functors are never
    below one another, the order is transitive, and being unordered,
    which is having the same priority, is transitive too. *)
Theorem priority_lt_strict_weak_order
    {R : Type} (a b c : priority_task_functor R) :
  priority_lt a a = false /\
  (priority_lt a b = true -> priority_lt b a = false) /\
  (priority_lt a b = true -> priority_lt b c = true -> priority_lt a c = true) /\
  (priority_lt a b = false /\ priority_lt b a = false
     <-> m_priority a = m_priority b) /\
  (priority_lt a b = false -> priority_lt b a = false ->
   priority_lt b c = false -> priority_lt c b = false ->
   priority_lt a c = false /\ priority_lt c a = false).
Proof.
  unfold priority_lt.
  repeat split;
    rewrite ?Z.ltb_lt, ?Z.ltb_ge in *; intros;
    repeat match goal with
           | Hc : _ /\ _ |- _ => destruct Hc
           | Hc : (_ <? _) = false |- _ => apply Z.ltb_ge in Hc
           | Hc : (_ <? _) = true |- _ => apply Z.ltb_lt in Hc
           end;
    rewrite ?Z.ltb_lt, ?Z.ltb_ge; lia.
Qed.

(** The order survives a change of result type: converted functors
    compare as their sources do, and so do functors after assignment,
    whatever they held and however they compared before. *)
Theorem priority_order_follows_the_source
    {U R : Type} `{ValueInit R}
    (a b : priority_task_functor U) (x y : priority_task_functor R) :
  priority_lt (priority_task_functor_convert a : priority_task_functor R)
              (priority_task_functor_convert b)
  = priority_lt a b /\
  priority_lt (priority_assign x a) (priority_assign y b) = priority_lt a b /\
  priority_lt (priority_assign x a) (priority_task_functor_convert a) = false.
Proof.
  unfold priority_lt; cbn [priority_task_functor_convert priority_assign
                             set_m_priority m_priority].
  repeat split; apply Z.ltb_irrefl.
Qed.

(** *** Conversions in a row *)

(** Converting twice is converting once, and assigning to a converted
    functor gives the functor converted from the assigned one: only the
    last source counts, and nothing of it but its priority, or its two
    break fields. *)
Theorem conversions_compose
    {U V R : Type} `{ValueInit V} `{ValueInit R}
    (p : priority_task_functor U) (p' : priority_task_functor V)
    (l : looped_task_functor U) (l' : looped_task_functor V) :
  (priority_task_functor_convert
     (priority_task_functor_convert p : priority_task_functor V)
   = (priority_task_functor_convert p : priority_task_functor R) /\
   priority_assign (priority_task_functor_convert p : priority_task_functor R) p'
   = priority_task_functor_convert p')
  /\
  (looped_task_functor_convert
     (looped_task_functor_convert l : looped_task_functor V)
   = (looped_task_functor_convert l : looped_task_functor R) /\
   looped_assign (looped_task_functor_convert l : looped_task_functor R) l'
   = looped_task_functor_convert l').
Proof. repeat split. Qed.

(** *** The interval and its two fields *)

(** The interval is kept whole in the two fields: seconds times 1000
    plus the milliseconds in the nanoseconds give it back, the
    nanoseconds are whole milliseconds, both fields are unsigned ints
    again, and the break test of operator() holds exactly for a nonzero
    interval. *)
Theorem interval_round_trip
    {R : Type} (g : function R) (interval : Z) :
  UInt.in_range interval ->
  let this := looped_task_functor_new g interval in
  m_break_s this * 1000 + m_break_ns this / 1000000 = interval /\
  m_break_ns this mod 1000000 = 0 /\
  UInt.in_range (m_break_s this) /\
  UInt.in_range (m_break_ns this) /\
  (has_break this = true <-> interval <> 0).
Proof.
  intros Hi this.
  destruct (looped_new_fields g interval Hi) as [Hs Hns].
  pose proof (has_break_new g interval Hi) as Hb.
  fold this in Hs, Hns, Hb; rewrite Hs, Hns, Hb.
  apply (proj1 (in_range_bounds _)) in Hi.
  pose proof (Z.div_mod interval 1000 ltac:(lia)) as Hdm.
  pose proof (Z.mod_pos_bound interval 1000 ltac:(lia)) as Hm.
  assert (Hq : 0 <= interval / 1000) by (apply Z.div_pos; lia).
  assert (Hq' : interval / 1000 <= interval)
    by (apply Z.div_le_upper_bound; lia).
  split; [| split; [| split; [| split]]].
  - rewrite Z.div_mul by lia; lia.
  - apply Z.mod_mul; lia.
  - apply (proj2 (in_range_bounds _)); lia.
  - apply (proj2 (in_range_bounds _)); lia.
  - destruct (Z.eqb_spec interval 0); cbn [negb]; split; intros; congruence.
Qed.

(** The time handed to thread::sleep is the time read plus the interval:
    [interval] milliseconds later to the nanosecond.  Its nanosecond
    field is not brought back below one second, and stays below 2^31
    when the one read was below one second. *)
Theorem break_target_is_interval_later
    {R : Type} (g : function R) (interval : Z) (now : xtime) :
  UInt.in_range interval ->
  0 <= nsec now < 1000000000 ->
  let xt := break_target (looped_task_functor_new g interval) now in
  xtime_ns xt = xtime_ns now + interval * 1000000 /\
  sec xt = sec now + interval / 1000 /\
  nsec now <= nsec xt < 2147483648.
Proof.
  intros Hi Hn xt; subst xt.
  unfold break_target, xtime_ns; cbn [sec nsec].
  destruct (looped_new_fields g interval Hi) as [-> ->].
  pose proof (Z.div_mod interval 1000 ltac:(lia)) as Hdm.
  pose proof (Z.mod_pos_bound interval 1000 ltac:(lia)) as Hm.
  repeat split; lia.
Qed.

(** *** A call that returns *)

(** A basic or a priority functor that holds a function calls it once
    and returns what it returned, in the state it left; the priority
    has no part in the call. *)
Theorem held_function_result_is_returned
    {R : Type} (f : callable R) (s s' : World) (r : R) :
  f s = (Normal r, s') ->
  (forall this : task_functor R,
      task_function this = Some f ->
      task_call this s = (Returned r, s', [EvCall])) /\
  (forall this : priority_task_functor R,
      task_function (priority_base this) = Some f ->
      priority_call this s = (Returned r, s', [EvCall])).
Proof.
  intros Hf; split; intros this Hheld.
  - unfold task_call; now rewrite Hheld, Hf.
  - unfold priority_call; now rewrite Hheld, Hf.
Qed.

(** *** The looped call, whatever the interval *)





(** A run of the loop read backwards: [k] calls answered true; out of
    fuel there were no more, and otherwise one more call answered false
    or raised. *)
Lemma looped_while_accounts {R : Type} `{BoolConvertible R}
    (this : looped_task_functor R) (f : callable R) (fuel : nat) :
  forall s : World,
  exists k : nat,
    (k <= fuel)%nat /\
    truthy_for f k s = true /\
    match looped_while fuel this f s with
    | (None, s', tr) =>
        k = fuel /\ s' = world_after f k s /\ tr = rounds (loop_body this) k
    | (Some c, s', tr) =>
        s' = world_after f (S k) s /\
        tr = rounds (loop_body this) k ++ [EvCall] /\
        match c with
        | EndOfBody => stops_at f k s = true
        | Thrown e => fst (f (world_after f k s)) = Raise e
        | Returned _ => False
        end
    end.
Proof.
  induction fuel as [| fuel IH]; intros s.
  - exists 0%nat; cbn; auto.
  - cbn [looped_while].
    destruct (f s) as [[r | e] s1] eqn:Hf.
    + destruct (truthy r) eqn:Hr.
      * destruct (IH s1) as (k & Hk & Htrue & Hrun).
        exists (S k).
        assert (Hworld : forall n, world_after f (S n) s = world_after f n s1).
        { intros n; cbn [world_after]; now rewrite Hf. }
        assert (Htrue' : truthy_for f (S k) s = true).
        { cbn [truthy_for]; now rewrite Hf, Hr, Htrue. }
        split; [lia |].
        split; [exact Htrue' |].
        destruct (looped_while fuel this f s1) as [[[c |] s2] tr].
        -- destruct Hrun as (Hs2 & Htr & Hc).
           rewrite !Hworld.
           split; [exact Hs2 |].
           split; [now rewrite Htr |].
           destruct c as [u | | e]; [exact Hc | | exact Hc].
           unfold stops_at in *; rewrite Htrue', Hworld.
           now apply andb_true_iff in Hc as [_ ->].
        -- destruct Hrun as (Hfuel & Hs2 & Htr).
           rewrite Hworld.
           split; [now rewrite Hfuel |].
           split; [exact Hs2 | now rewrite Htr].
      * exists 0%nat.
        split; [lia |].
        split; [reflexivity |].
        cbn [world_after rounds app]; rewrite Hf; cbn [snd].
        split; [reflexivity |].
        split; [reflexivity |].
        unfold stops_at; cbn [truthy_for world_after andb].
        now rewrite Hf, Hr.
    + exists 0%nat.
      split; [lia |].
      split; [reflexivity |].
      cbn [world_after rounds app]; now rewrite Hf.
Qed.

(** Every invocation of a non-empty looped functor accounts for itself:
    some [k] calls answered true, each followed by the break or the
    yield; if the invocation returned, one more call answered false; if
    it failed, one more call raised that failure; otherwise it is still
    in the loop.  The state is the one those calls left, and the looped
    operator() never returns a value. *)
Theorem looped_call_accounts
    {R : Type} `{BoolConvertible R}
    (this : looped_task_functor R) (f : callable R) (fuel : nat) (s : World) :
  task_function (looped_base this) = Some f ->
  exists k : nat,
    (k <= fuel)%nat /\
    truthy_for f k s = true /\
    match looped_call fuel this s with
    | (None, s', tr) =>
        k = fuel /\ s' = world_after f k s /\
        tr = first_break this ++ rounds (loop_body this) k
    | (Some c, s', tr) =>
        s' = world_after f (S k) s /\
        tr = first_break this ++ rounds (loop_body this) k ++ [EvCall] /\
        match c with
        | EndOfBody => stops_at f k s = true
        | Thrown e => fst (f (world_after f k s)) = Raise e
        | Returned _ => False
        end
    end.
Proof.
  intros Hheld.
  destruct (looped_while_accounts this f fuel s) as (k & Hk & Htrue & Hrun).
  exists k; split; [exact Hk |]; split; [exact Htrue |].
  unfold looped_call; rewrite Hheld.
  destruct (looped_while fuel this f s) as [[[c |] s'] tr].
  - destruct Hrun as (Hs' & Htr & Hc); now rewrite Htr.
  - destruct Hrun as (Hfuel & Hs' & Htr); now rewrite Htr.
Qed.


(** With a nonzero interval, a function that answers true exactly [N]
    times and then false is called [N + 1] times, each call after a
    sleep of the interval; the invocation then returns, without a sleep
    after the last call and without any yield. *)
Theorem nonzero_interval_loop
    {R : Type} `{BoolConvertible R}
    (f : callable R) (interval : Z) (N : nat) (s : World) (fuel : nat) :
  UInt.in_range interval ->
  interval <> 0 ->
  stops_at f N s = true ->
  (N < fuel)%nat ->
  let pause := EvSleep (interval / 1000) ((interval mod 1000) * 1000000) in
  looped_call fuel (looped_task_functor_new (Some f) interval) s
    = (Some EndOfBody, world_after f (S N) s,
       pause :: rounds pause N ++ [EvCall]) /\
  count is_call (pause :: rounds pause N ++ [EvCall]) = S N /\
  count is_sleep (pause :: rounds pause N ++ [EvCall]) = S N /\
  count is_yield (pause :: rounds pause N ++ [EvCall]) = 0%nat.
Proof.
  intros Hi Hnz Hstop Hlt pause; split.
  - set (this := looped_task_functor_new (Some f) interval).
    assert (Hbreak : has_break this = true).
    { unfold this; rewrite (has_break_new (Some f) interval Hi).
      now destruct (Z.eqb_spec interval 0). }
    assert (Hsleep : sleep_break this = pause).
    { unfold sleep_break, this, pause.
      now destruct (looped_new_fields (Some f) interval Hi) as [-> ->]. }
    rewrite (looped_call_some fuel this f s eq_refl).
    rewrite (looped_while_stops this f N fuel s Hstop Hlt).
    unfold first_break, loop_body; rewrite Hbreak, Hsleep.
    reflexivity.
  - change (pause :: rounds pause N ++ [EvCall])
      with ([pause] ++ rounds pause N ++ [EvCall]).
    rewrite !count_app, !count_rounds; cbn; lia.
Qed.

(** A looped functor that was default-constructed, or converted from
    another result type, holds the default function, whose
    value-initialised result stops the loop when it converts to false:
    the invocation takes the break of the source once, if it had one,
    makes one call, changes no state and returns. *)
Theorem converted_looped_functor_runs_once
    {U R : Type} `{ValueInit R} `{BoolConvertible R}
    (l : looped_task_functor U) (s : World) (fuel : nat) :
  truthy (value_init : R) = false ->
  (0 < fuel)%nat ->
  looped_call fuel (looped_task_functor_convert l : looped_task_functor R) s
    = (Some EndOfBody, s,
       (if has_break l then [EvSleep (m_break_s l) (m_break_ns l)] else [])
         ++ [EvCall]) /\
  looped_call fuel (looped_task_functor_default : looped_task_functor R) s
    = (Some EndOfBody, s, [EvCall]).
Proof.
  intros Hfalse Hfuel.
  destruct fuel as [| fuel]; [lia |].
  unfold looped_call.
  cbn [looped_task_functor_convert looped_task_functor_default
       looped_task_functor_new looped_base task_functor_default
       task_functor_new task_function default_input_function
       looped_while default_lambda].
  rewrite Hfalse.
  split; reflexivity.
Qed.


End MoreProperties.

(** ** The further properties at the sample callables *)

(** An interval of 61 seconds and 234 milliseconds. *)
Lemma interval_round_trip_witness :
  UInt.in_range 61234 /\
  (let this := looped_task_functor_new (Some forever) 61234 in
   m_break_s this * 1000 + m_break_ns this / 1000000 = 61234 /\
   m_break_ns this mod 1000000 = 0 /\
   UInt.in_range (m_break_s this) /\
   UInt.in_range (m_break_ns this) /\
   (has_break this = true <-> 61234 <> 0)).
Proof.
  assert (Hr : UInt.in_range 61234) by (apply (proj2 (in_range_bounds _)); lia).
  split; [exact Hr |].
  exact (interval_round_trip (Some forever) 61234 Hr).
Defined.

(** A break of 1500 ms read at 100 s and 999_999_999 ns. *)
Lemma break_target_is_interval_later_witness :
  UInt.in_range 1500 /\
  0 <= nsec (mk_xtime 100 999999999) < 1000000000 /\
  break_target (looped_task_functor_new (Some forever) 1500)
    (mk_xtime 100 999999999)
  = mk_xtime 101 1499999999 /\
  xtime_ns (break_target (looped_task_functor_new (Some forever) 1500)
              (mk_xtime 100 999999999))
  = xtime_ns (mk_xtime 100 999999999) + 1500 * 1000000.
Proof.
  assert (Hr : UInt.in_range 1500) by (apply (proj2 (in_range_bounds _)); lia).
  assert (Hn : 0 <= nsec (mk_xtime 100 999999999) < 1000000000) by (cbn; lia).
  split; [exact Hr |].
  split; [exact Hn |].
  split; [reflexivity |].
  exact (proj1 (break_target_is_interval_later (Some forever) 1500
                  (mk_xtime 100 999999999) Hr Hn)).
Defined.

(** The function that answers 42, in a basic and in a priority functor. *)
Lemma held_function_result_is_returned_witness :
  answer 0%nat = (Normal 42, 1%nat) /\
  task_call (task_functor_new (Some answer)) 0%nat
  = (Returned 42, 1%nat, [EvCall]) /\
  priority_call (priority_task_functor_new 9 (Some answer)) 0%nat
  = (Returned 42, 1%nat, [EvCall]).
Proof.
  split; [reflexivity |].
  destruct (held_function_result_is_returned answer 0%nat 1%nat 42 eq_refl)
    as [Htask Hprio].
  split.
  - exact (Htask (task_functor_new (Some answer)) eq_refl).
  - exact (Hprio (priority_task_functor_new 9 (Some answer)) eq_refl).
Defined.

(** A counter that stops at 2, with a break of 250 ms and fuel to spare:
    the invocation returned, so the third call answered false. *)
Lemma looped_call_accounts_witness :
  task_function (looped_base (looped_task_functor_new (Some (count_to 2)) 250))
  = Some (count_to 2) /\
  exists k : nat,
    (k <= 5)%nat /\
    truthy_for (count_to 2) k 0%nat = true /\
    stops_at (count_to 2) k 0%nat = true.
Proof.
  split; [reflexivity |].
  destruct (looped_call_accounts
              (looped_task_functor_new (Some (count_to 2)) 250)
              (count_to 2) 5 0%nat eq_refl)
    as (k & Hk & Htrue & Hrun).
  exists k.
  split; [exact Hk |].
  split; [exact Htrue |].
  exact (proj2 (proj2 Hrun)).
Defined.


(** A counter that stops at 2, every 1500 ms. *)
Lemma nonzero_interval_loop_witness :
  UInt.in_range 1500 /\
  1500 <> 0 /\
  stops_at (count_to 2) 2 0%nat = true /\
  (2 < 5)%nat /\
  looped_call 5 (looped_task_functor_new (Some (count_to 2)) 1500) 0%nat
  = (Some EndOfBody, 3%nat,
     [EvSleep 1 500000000; EvCall; EvSleep 1 500000000; EvCall;
      EvSleep 1 500000000; EvCall]).
Proof.
  assert (Hr : UInt.in_range 1500) by (apply (proj2 (in_range_bounds _)); lia).
  assert (Hnz : 1500 <> 0) by lia.
  split; [exact Hr |].
  split; [exact Hnz |].
  split; [reflexivity |].
  split; [lia |].
  exact (proj1 (nonzero_interval_loop (count_to 2) 1500 2 0%nat 5
                  Hr Hnz eq_refl ltac:(lia))).
Defined.

(** A looped functor of result type int converted from one of result
    type bool that had a break of 2 ms. *)
Lemma converted_looped_functor_runs_once_witness :
  truthy (value_init : Z) = false /\
  (0 < 1)%nat /\
  looped_call 1
    (looped_task_functor_convert (looped_task_functor_new (Some forever) 2)
     : looped_task_functor nat nat Z) 7%nat
  = (Some EndOfBody, 7%nat, [EvSleep 0 2000000; EvCall]).
Proof.
  split; [reflexivity |].
  split; [lia |].
  exact (proj1 (converted_looped_functor_runs_once
                  (R := Z) (looped_task_functor_new (Some forever) 2) 7%nat 1
                  eq_refl ltac:(lia))).
Defined.
